(** * Row-major matrices of the primer project (p0_starter.h)

    A shallow embedding of [Matrix<T>], [RowMatrix<T>] and
    [RowMatrixOperations<T>] from [src/include/primer/p0_starter.h], and the
    properties of construction, element access, bulk fill, addition and
    multiplication that hold of that code.

    [RowMatrixOperations<T>::GEMM] is not embedded: its body,
    [Add(Multiply(matrixA, matrixB), matrixC)], hands the [unique_ptr] that
    [Multiply] returns to [Add], whose parameter is a [const RowMatrix<T>*];
    no conversion between the two exists, so the member has no instance and
    no call of it runs. The two calls it names are studied on their own.

    Conventions of the embedding:
    - a C++ [int] is a [Z]; the constructor only builds matrices whose
      [rows * cols] fits an [int], so the index arithmetic of the loops
      never leaves the [int] range on a constructed matrix;
    - the buffer [_linear] is a [list T]; the row-pointer table [_data] is
      the list of the offsets of the rows inside [_linear];
    - a raw pointer or [unique_ptr] to a matrix is an [option RowMatrix],
      [None] being [nullptr];
    - a call either returns, throws an [Exception], fails an [assert], or
      has no defined behaviour (an access outside a buffer, a null
      dereference): the type [outcome]. *)

From Stdlib Require Import ZArith Lia.
From stdpp Require Import base list strings.

Local Open Scope Z_scope.

(** ** Outcomes of a call *)

(** Modelled from the spec: [common/exception.h] is not part of the sources.
    The only kind of exception the matrix code throws is the out-of-range
    error, carrying a message. *)
Inductive ExceptionType : Type :=
| OUT_OF_RANGE.

Record Exception : Type := mkException {
  exc_type : ExceptionType;
  exc_message : string
}.

Inductive outcome (A : Type) : Type :=
| Ok (a : A)
| Throw (e : Exception)
| AssertFail
| Undefined.

Arguments Ok {A} a.
Arguments Throw {A} e.
Arguments AssertFail {A}.
Arguments Undefined {A}.

Definition bind {A B : Type} (x : outcome A) (k : A -> outcome B) : outcome B :=
  match x with
  | Ok a => k a
  | Throw e => Throw e
  | AssertFail => AssertFail
  | Undefined => Undefined
  end.

Notation "x <- c ;; k" := (bind c (fun x => k))
  (at level 100, c at next level, right associativity).

(** [for (int i = 0; i < bound; i++) body], the loop state threaded through
    the iterations; an iteration that does not return ends the loop. *)
Fixpoint for_range {St : Type} (trips : nat) (i : Z)
    (body : Z -> St -> outcome St) (s : St) : outcome St :=
  match trips with
  | O => Ok s
  | S trips' => s' <- body i s ;; for_range trips' (i + 1) body s'
  end.

Definition for_int {St : Type} (bound : Z)
    (body : Z -> St -> outcome St) (s : St) : outcome St :=
  for_range (Z.to_nat bound) 0 body s.

Definition INT_MAX : Z := 2147483647.

(** Conversion of an [int] to [size_t] (64 bits). *)
Definition to_size_t (x : Z) : Z := x mod 2 ^ 64.

(** The operations the template needs of its element type: construction
    from the literal [0], [+] and [*]. *)
Class Elem (T : Type) : Type := {
  zero : T;
  add : T -> T -> T;
  mul : T -> T -> T
}.

(** [int] elements, for computations that stay inside the [int] range. *)
#[export] Instance Z_Elem : Elem Z := {| zero := 0; add := Z.add; mul := Z.mul |}.

(** ** The matrix classes *)

Section Matrix.

Context {T : Type} `{Elem T}.

(** [new T[n]] leaves the elements of a built-in type uninitialised; [indet]
    stands for whatever such an element holds. *)
Variable indet : T.

Record RowMatrix : Type := mkRowMatrix {
  _rows : Z;
  _cols : Z;
  _linear : list T;
  _data : list Z
}.

(** [Matrix(int rows, int cols)]: the assertion, then the buffer of
    [_rows * _cols] elements. The size is a product of two [int]s: beyond
    [INT_MAX] it has no defined value. *)
Definition Matrix_new (rows cols : Z) : outcome (list T) :=
  if (rows >? 0) && (cols >? 0) then
    if rows * cols <=? INT_MAX then
      Ok (replicate (Z.to_nat (rows * cols)) indet)
    else Undefined
  else AssertFail.

(** The loop of [RowMatrix(int rows, int cols)]:
    [_data[i] = _linear + offset; offset += cols]. *)
Fixpoint row_pointers (trips : nat) (offset cols : Z) : list Z :=
  match trips with
  | O => []
  | S trips' => offset :: row_pointers trips' (offset + cols) cols
  end.

Definition RowMatrix_new (rows cols : Z) : outcome RowMatrix :=
  linear <- Matrix_new rows cols ;;
  Ok {| _rows := rows; _cols := cols; _linear := linear;
        _data := row_pointers (Z.to_nat rows) 0 cols |}.

Definition GetRowCount (this : RowMatrix) : Z := _rows this.

Definition GetColumnCount (this : RowMatrix) : Z := _cols this.

(** The position in [_linear] that [_data[i][j]] designates, if any. *)
Definition data_index (this : RowMatrix) (i j : Z) : option nat :=
  if i <? 0 then None
  else
    match _data this !! Z.to_nat i with
    | Some offset =>
        if (offset + j <? 0) || (Z.of_nat (length (_linear this)) <=? offset + j)
        then None
        else Some (Z.to_nat (offset + j))
    | None => None
    end.

(** Reading [_data[i][j]]. *)
Definition load (this : RowMatrix) (i j : Z) : outcome T :=
  match data_index this i j with
  | Some p =>
      match _linear this !! p with
      | Some v => Ok v
      | None => Undefined
      end
  | None => Undefined
  end.

(** Writing [_data[i][j] = val]. *)
Definition store (this : RowMatrix) (i j : Z) (val : T) : outcome RowMatrix :=
  match data_index this i j with
  | Some p =>
      Ok {| _rows := _rows this; _cols := _cols this;
            _linear := <[p := val]> (_linear this);
            _data := _data this |}
  | None => Undefined
  end.

Definition out_of_range (this : RowMatrix) (i j : Z) : bool :=
  (i <? 0) || (i >=? _rows this) || (j <? 0) || (j >=? _cols this).

Definition GetElement (this : RowMatrix) (i j : Z) : outcome T :=
  if out_of_range this i j then
    Throw (mkException OUT_OF_RANGE "GetElement out of range")
  else load this i j.

(** A member function that changes the object returns its outcome together
    with the object as the call leaves it. *)
Definition leave (this : RowMatrix) (r : outcome RowMatrix)
    : outcome unit * RowMatrix :=
  match r with
  | Ok this' => (Ok tt, this')
  | Throw e => (Throw e, this)
  | AssertFail => (AssertFail, this)
  | Undefined => (Undefined, this)
  end.

Definition SetElement (this : RowMatrix) (i j : Z) (val : T)
    : outcome unit * RowMatrix :=
  if out_of_range this i j then
    (Throw (mkException OUT_OF_RANGE "SetElement out of range"), this)
  else leave this (store this i j val).

(** [source[n]] on a [std::vector]. *)
Definition vector_at (source : list T) (n : Z) : outcome T :=
  if n <? 0 then Undefined
  else
    match source !! Z.to_nat n with
    | Some v => Ok v
    | None => Undefined
    end.

Definition FillFrom_loops (this : RowMatrix) (source : list T) : outcome RowMatrix :=
  for_int (_rows this) (fun i this =>
    for_int (_cols this) (fun j this =>
      v <- vector_at source (i * _cols this + j) ;;
      store this i j v) this) this.

Definition FillFrom (this : RowMatrix) (source : list T)
    : outcome unit * RowMatrix :=
  if negb (Z.of_nat (length source)
             =? (to_size_t (_rows this) * to_size_t (_cols this)) mod 2 ^ 64)
  then (Throw (mkException OUT_OF_RANGE "FillFrom out of range"), this)
  else leave this (FillFrom_loops this source).

(** ** The static operations *)

Definition is_null (p : option RowMatrix) : bool :=
  match p with
  | Some _ => false
  | None => true
  end.

(** [p->...]: following a pointer. *)
Definition deref (p : option RowMatrix) : outcome RowMatrix :=
  match p with
  | Some m => Ok m
  | None => Undefined
  end.

(** The object a call on a local matrix leaves behind, when it returns. *)
Definition updated (r : outcome unit * RowMatrix) : outcome RowMatrix :=
  _ <- fst r ;; Ok (snd r).

Definition Add_loops (a b result : RowMatrix) (rowsA colsA : Z) : outcome RowMatrix :=
  for_int rowsA (fun i result =>
    for_int colsA (fun j result =>
      valueA <- GetElement a i j ;;
      valueB <- GetElement b i j ;;
      updated (SetElement result i j (add valueA valueB))) result) result.

Definition Add (matrixA matrixB : option RowMatrix) : outcome (option RowMatrix) :=
  if is_null matrixA || is_null matrixB then Ok None
  else
    a <- deref matrixA ;;
    b <- deref matrixB ;;
    let rowsA := GetRowCount a in
    let colsA := GetColumnCount a in
    let rowsB := GetRowCount b in
    let colsB := GetColumnCount b in
    if negb (rowsA =? rowsB) || negb (colsA =? colsB) then Ok None
    else
      result <- RowMatrix_new rowsA colsB ;;
      result <- Add_loops a b result rowsA colsA ;;
      Ok (Some result).

(** The innermost loop of [Multiply]: [tmp += A(i,k) * B(k,j)]. *)
Definition Multiply_accumulate (a b : RowMatrix) (i j colsA : Z) : outcome T :=
  for_int colsA (fun k tmp =>
    x <- GetElement a i k ;;
    y <- GetElement b k j ;;
    Ok (add tmp (mul x y))) zero.

Definition Multiply_loops (a b result : RowMatrix) (rowsA colsA colsB : Z)
    : outcome RowMatrix :=
  for_int rowsA (fun i result =>
    for_int colsB (fun j result =>
      tmp <- Multiply_accumulate a b i j colsA ;;
      updated (SetElement result i j tmp)) result) result.

(** The last statement returns a null [unique_ptr], not [result]. *)
Definition Multiply (matrixA matrixB : option RowMatrix) : outcome (option RowMatrix) :=
  if is_null matrixA || is_null matrixB then Ok None
  else
    a <- deref matrixA ;;
    b <- deref matrixB ;;
    let rowsA := GetRowCount a in
    let colsA := GetColumnCount a in
    let rowsB := GetRowCount b in
    let colsB := GetColumnCount b in
    if negb (colsA =? rowsB) then Ok None
    else
      result <- RowMatrix_new rowsA colsB ;;
      result <- Multiply_loops a b result rowsA colsA colsB ;;
      Ok None.

(** ** The invariant of a constructed matrix *)

(** What the constructor establishes and no member function changes: a
    positive shape whose size fits an [int], a buffer of exactly
    [rows * cols] elements, and the row pointers at the row offsets. *)
Record well_formed (m : RowMatrix) : Prop := mk_well_formed {
  wf_rows : 0 < _rows m;
  wf_cols : 0 < _cols m;
  wf_size : _rows m * _cols m <= INT_MAX;
  wf_linear : Z.of_nat (length (_linear m)) = _rows m * _cols m;
  wf_data : _data m = row_pointers (Z.to_nat (_rows m)) 0 (_cols m)
}.

Definition in_range (m : RowMatrix) (i j : Z) : Prop :=
  0 <= i < _rows m /\ 0 <= j < _cols m.

Definition same_shape (r m : RowMatrix) : Prop :=
  _rows r = _rows m /\ _cols r = _cols m.

(** The matrix the constructor builds for a positive shape that fits. *)
Definition fresh (rows cols : Z) : RowMatrix :=
  {| _rows := rows; _cols := cols;
     _linear := replicate (Z.to_nat (rows * cols)) indet;
     _data := row_pointers (Z.to_nat rows) 0 cols |}.

(** The matrix [m] with the element at row-major position (i, j) replaced. *)
Definition with_element (m : RowMatrix) (i j : Z) (v : T) : RowMatrix :=
  {| _rows := _rows m; _cols := _cols m;
     _linear := <[Z.to_nat (i * _cols m + j) := v]> (_linear m);
     _data := _data m |}.

(** The element of [m] at (i, j), [zero] outside the buffer. *)
Definition entry (m : RowMatrix) (i j : Z) : T :=
  default zero (_linear m !! Z.to_nat (i * _cols m + j)).

(** [zero + f 0 + f 1 + ... + f (n - 1)], summed from the left. *)
Definition sum_from_zero (n : nat) (f : Z -> T) : T :=
  fold_left (fun acc k => add acc (f k)) (seqZ 0 (Z.of_nat n)) zero.

(** The (i, j) element of the product as the spec words it:
    the sum over k of A[i][k] * B[k][j]. *)
Definition product_entry (a b : RowMatrix) (i j : Z) : T :=
  sum_from_zero (Z.to_nat (_cols a)) (fun k => mul (entry a i k) (entry b k j)).

(** The matrix [m] with its buffer replaced by [source]. *)
Definition with_buffer (m : RowMatrix) (source : list T) : RowMatrix :=
  {| _rows := _rows m; _cols := _cols m; _linear := source; _data := _data m |}.

(** A call that returns or throws: it neither fails an assertion nor
    leaves defined behaviour. *)
Definition returns_or_throws {A : Type} (o : outcome A) : Prop :=
  match o with
  | Ok _ | Throw _ => True
  | AssertFail | Undefined => False
  end.

(** The shape and the row pointers of [r] are those of [m]. *)
Definition same_frame (r m : RowMatrix) : Prop :=
  _rows r = _rows m /\ _cols r = _cols m /\ _data r = _data m.

End Matrix.

Arguments RowMatrix T : clear implicits.

(** ** Matrices of [int] used as test inputs *)

(** The matrix that [RowMatrix<int> m(rows, cols); m.FillFrom(elems)]
    builds when [elems] has [rows * cols] elements. *)
Definition int_matrix (rows cols : Z) (elems : list Z) : RowMatrix Z :=
  {| _rows := rows; _cols := cols; _linear := elems;
     _data := row_pointers (Z.to_nat rows) 0 cols |}.

Definition matA : RowMatrix Z := int_matrix 2 2 [1; 2; 3; 4].
Definition matB : RowMatrix Z := int_matrix 2 2 [5; 6; 7; 8].
Definition matC : RowMatrix Z := int_matrix 2 2 [1; 1; 1; 1].
Definition mat23 : RowMatrix Z := int_matrix 2 3 [1; 2; 3; 4; 5; 6].
Definition mat32 : RowMatrix Z := int_matrix 3 2 [1; 2; 3; 4; 5; 6].

(** A 46341 x 1 and a 1 x 46341 matrix of zeros: each fits, their product
    has 46341 * 46341 = 2147488281 elements. *)
Definition tall : RowMatrix Z := int_matrix 46341 1 (replicate (Z.to_nat 46341) 0).
Definition wide : RowMatrix Z := int_matrix 1 46341 (replicate (Z.to_nat 46341) 0).

Section Properties.

Context {T : Type} `{Elem T}.
Variable indet : T.

Implicit Types (m a b c : RowMatrix T) (i j k : Z) (v : T).

(** ** Loops *)

Lemma for_range_inv {St : Type} (P : Z -> St -> Prop) (body : Z -> St -> outcome St) :
  forall (trips : nat) (i : Z) (s : St),
    P i s ->
    (forall k t, i <= k < i + Z.of_nat trips -> P k t ->
       exists t', body k t = Ok t' /\ P (k + 1) t') ->
    exists s', for_range trips i body s = Ok s' /\ P (i + Z.of_nat trips) s'.
Proof.
  induction trips as [|n IH]; intros i s Hs Hstep.
  - exists s. split; [reflexivity|]. now replace (i + Z.of_nat 0) with i by lia.
  - destruct (Hstep i s) as (t & Ht & HP); [lia | assumption |].
    destruct (IH (i + 1) t HP) as (s' & Hs' & HP').
    + intros k u Hk. apply Hstep. lia.
    + exists s'. cbn [for_range]. rewrite Ht. cbn [bind]. split; [assumption|].
      now replace (i + Z.of_nat (S n)) with (i + 1 + Z.of_nat n) by lia.
Qed.

Lemma for_int_inv {St : Type} (P : Z -> St -> Prop) (bound : Z)
    (body : Z -> St -> outcome St) (s : St) :
  0 <= bound ->
  P 0 s ->
  (forall k t, 0 <= k < bound -> P k t ->
     exists t', body k t = Ok t' /\ P (k + 1) t') ->
  exists s', for_int bound body s = Ok s' /\ P bound s'.
Proof.
  intros Hb Hs Hstep. unfold for_int.
  destruct (for_range_inv P body (Z.to_nat bound) 0 s Hs) as (s' & Hs' & HP).
  - intros k t Hk. apply Hstep. lia.
  - exists s'. split; [assumption|].
    now replace bound with (0 + Z.of_nat (Z.to_nat bound)) by lia.
Qed.

(** ** Addressing *)

Lemma row_pointers_lookup (cols : Z) :
  forall (trips : nat) (offset : Z) (r : nat),
    (r < trips)%nat ->
    row_pointers trips offset cols !! r = Some (offset + Z.of_nat r * cols).
Proof.
  induction trips as [|n IH]; intros offset r Hr; [lia|].
  destruct r as [|r]; cbn [row_pointers].
  - cbn. f_equal. lia.
  - cbn [lookup list_lookup]. rewrite IH by lia. f_equal. lia.
Qed.

Lemma row_major_bound (rows cols i j : Z) :
  0 <= i < rows -> 0 <= j < cols -> 0 <= i * cols + j < rows * cols.
Proof. intros Hi Hj. nia. Qed.

Lemma row_major_inj (cols i j i' j' : Z) :
  0 <= j < cols -> 0 <= j' < cols ->
  i * cols + j = i' * cols + j' -> i = i' /\ j = j'.
Proof.
  intros Hj Hj' Heq.
  assert (i = i') as ->.
  { destruct (Z.lt_trichotomy i i') as [Hlt|[Heq'|Hgt]]; [exfalso|assumption|exfalso].
    - assert ((i + 1) * cols <= i' * cols) by (apply Z.mul_le_mono_nonneg_r; lia). lia.
    - assert ((i' + 1) * cols <= i * cols) by (apply Z.mul_le_mono_nonneg_r; lia). lia. }
  split; [reflexivity | lia].
Qed.

Lemma data_index_in_range m i j :
  well_formed m -> in_range m i j ->
  data_index m i j = Some (Z.to_nat (i * _cols m + j)).
Proof.
  intros Hwf [Hi Hj]. unfold data_index.
  destruct (Z.ltb_spec i 0) as [?|_]; [lia|].
  rewrite (wf_data m Hwf), row_pointers_lookup by lia.
  rewrite (wf_linear m Hwf), Z2Nat.id by lia.
  pose proof (row_major_bound _ _ i j Hi Hj) as Hb.
  destruct (Z.ltb_spec (0 + i * _cols m + j) 0) as [?|_]; [lia|].
  destruct (Z.leb_spec (_rows m * _cols m) (0 + i * _cols m + j)) as [?|_]; [lia|].
  reflexivity.
Qed.

Lemma out_of_range_false m i j :
  in_range m i j -> out_of_range m i j = false.
Proof.
  unfold in_range, out_of_range. intros [Hi Hj]. rewrite !Z.geb_leb.
  destruct (Z.ltb_spec i 0), (Z.leb_spec (_rows m) i),
    (Z.ltb_spec j 0), (Z.leb_spec (_cols m) j); cbn; lia.
Qed.

Lemma out_of_range_true m i j :
  i < 0 \/ _rows m <= i \/ j < 0 \/ _cols m <= j -> out_of_range m i j = true.
Proof.
  unfold out_of_range. intros Hout. rewrite !Z.geb_leb.
  destruct (Z.ltb_spec i 0), (Z.leb_spec (_rows m) i),
    (Z.ltb_spec j 0), (Z.leb_spec (_cols m) j); cbn; lia.
Qed.

Lemma in_range_of_test m i j :
  out_of_range m i j = false -> in_range m i j.
Proof.
  unfold out_of_range, in_range. rewrite !Z.geb_leb. intros Hout.
  destruct (Z.ltb_spec i 0), (Z.leb_spec (_rows m) i),
    (Z.ltb_spec j 0), (Z.leb_spec (_cols m) j); cbn in Hout; try discriminate; lia.
Qed.

Lemma out_of_range_shape m (m' : RowMatrix T) i j :
  _rows m' = _rows m -> _cols m' = _cols m ->
  out_of_range m' i j = out_of_range m i j.
Proof. unfold out_of_range. now intros -> ->. Qed.

(** ** Element access on a constructed matrix *)

Lemma well_formed_with_element m i j v :
  well_formed m -> well_formed (with_element m i j v).
Proof.
  intros [Hr Hc Hs Hl Hd]. constructor; cbn; try assumption.
  now rewrite length_insert.
Qed.

Lemma linear_lookup_in_range m i j :
  well_formed m -> in_range m i j ->
  _linear m !! Z.to_nat (i * _cols m + j) = Some (entry m i j).
Proof.
  intros Hwf [Hi Hj]. unfold entry.
  pose proof (row_major_bound _ _ i j Hi Hj) as Hb.
  destruct (lookup_lt_is_Some_2 (_linear m) (Z.to_nat (i * _cols m + j))) as [v Hv].
  - pose proof (wf_linear m Hwf). lia.
  - now rewrite Hv.
Qed.

Lemma load_in_range m i j :
  well_formed m -> in_range m i j -> load m i j = Ok (entry m i j).
Proof.
  intros Hwf Hij. unfold load.
  now rewrite data_index_in_range, linear_lookup_in_range.
Qed.

Lemma store_in_range m i j v :
  well_formed m -> in_range m i j -> store m i j v = Ok (with_element m i j v).
Proof.
  intros Hwf Hij. unfold store. now rewrite data_index_in_range.
Qed.

Lemma GetElement_in_range m i j :
  well_formed m -> in_range m i j -> GetElement m i j = Ok (entry m i j).
Proof.
  intros Hwf Hij. unfold GetElement.
  rewrite out_of_range_false by assumption. now apply load_in_range.
Qed.

Lemma SetElement_in_range m i j v :
  well_formed m -> in_range m i j ->
  SetElement m i j v = (Ok tt, with_element m i j v).
Proof.
  intros Hwf Hij. unfold SetElement.
  rewrite out_of_range_false by assumption.
  now rewrite store_in_range.
Qed.

Lemma entry_with_element_eq m i j v :
  well_formed m -> in_range m i j -> entry (with_element m i j v) i j = v.
Proof.
  intros Hwf [Hi Hj]. unfold entry, with_element. cbn.
  pose proof (row_major_bound _ _ i j Hi Hj) as Hb.
  rewrite list_lookup_insert_eq; [reflexivity|].
  pose proof (wf_linear m Hwf). lia.
Qed.

Lemma entry_with_element_ne m i j i' j' v :
  in_range m i j -> in_range m i' j' -> (i', j') <> (i, j) ->
  entry (with_element m i j v) i' j' = entry m i' j'.
Proof.
  intros [Hi Hj] [Hi' Hj'] Hne. unfold entry, with_element. cbn.
  pose proof (row_major_bound _ _ i j Hi Hj) as Hb.
  pose proof (row_major_bound _ _ i' j' Hi' Hj') as Hb'.
  rewrite list_lookup_insert_ne; [reflexivity|].
  intros Heq. apply Hne.
  destruct (row_major_inj (_cols m) i j i' j' Hj Hj') as [-> ->]; [lia | reflexivity].
Qed.

(** C5. On a matrix of shape rows x cols, for every value v and every
    index pair with 0 <= i < rows and 0 <= j < cols, SetElement(i, j, v)
    returns and the GetElement(i, j) that follows returns v. *)
Theorem SetElement_then_GetElement m i j v :
  well_formed m -> 0 <= i < _rows m -> 0 <= j < _cols m ->
  exists m',
    SetElement m i j v = (Ok tt, m') /\ GetElement m' i j = Ok v.
Proof.
  intros Hwf Hi Hj. assert (in_range m i j) as Hij by (split; assumption).
  exists (with_element m i j v). split.
  - now apply SetElement_in_range.
  - rewrite GetElement_in_range.
    + now rewrite entry_with_element_eq.
    + now apply well_formed_with_element.
    + exact Hij.
Qed.

(** C6. For every index pair with i outside [0, rows) or j outside
    [0, cols), GetElement(i, j) and SetElement(i, j, v) both throw the
    out-of-range error, and the object SetElement leaves is the object it
    was called on (GetElement is a const member and has no object to
    change). *)
Theorem out_of_range_access_rejected m i j v :
  i < 0 \/ _rows m <= i \/ j < 0 \/ _cols m <= j ->
  GetElement m i j = Throw (mkException OUT_OF_RANGE "GetElement out of range") /\
  SetElement m i j v = (Throw (mkException OUT_OF_RANGE "SetElement out of range"), m).
Proof.
  intros Hout. unfold GetElement, SetElement.
  rewrite out_of_range_true by assumption. split; reflexivity.
Qed.

(** C10. An in-range SetElement(i, j, v) leaves rows and cols as they were
    and GetElement at every other index pair (i', j') <> (i, j) gives what
    it gave before. *)
Theorem SetElement_frame m i j v :
  well_formed m -> 0 <= i < _rows m -> 0 <= j < _cols m ->
  exists m',
    SetElement m i j v = (Ok tt, m') /\
    GetRowCount m' = GetRowCount m /\
    GetColumnCount m' = GetColumnCount m /\
    forall i' j', (i', j') <> (i, j) -> GetElement m' i' j' = GetElement m i' j'.
Proof.
  intros Hwf Hi Hj. assert (in_range m i j) as Hij by (split; assumption).
  exists (with_element m i j v). split; [now apply SetElement_in_range|].
  split; [reflexivity|]. split; [reflexivity|].
  intros i' j' Hne. unfold GetElement.
  rewrite (out_of_range_shape m (with_element m i j v)) by reflexivity.
  destruct (out_of_range m i' j') eqn:Hout; [reflexivity|].
  apply in_range_of_test in Hout as Hij'.
  rewrite !load_in_range; try assumption.
  - now rewrite entry_with_element_ne.
  - now apply well_formed_with_element.
Qed.

(** ** Loops that write every element of a matrix *)

Lemma in_range_same_shape (r m : RowMatrix T) i j :
  same_shape r m -> in_range m i j -> in_range r i j.
Proof. unfold same_shape, in_range. intros [-> ->]. tauto. Qed.

(** One row: a loop over j whose body writes [g j] at (i, j). *)
Lemma fill_row (g : Z -> T) (body : Z -> RowMatrix T -> outcome (RowMatrix T))
    m (r0 : RowMatrix T) i :
  well_formed r0 -> same_shape r0 m -> 0 <= i < _rows m ->
  (forall j (r : RowMatrix T), 0 <= j < _cols m -> well_formed r -> same_shape r m ->
     body j r = Ok (with_element r i j (g j))) ->
  exists r',
    for_int (_cols m) body r0 = Ok r' /\
    well_formed r' /\ same_shape r' m /\
    (forall j, 0 <= j < _cols m -> entry r' i j = g j) /\
    (forall i' j', in_range m i' j' -> i' <> i -> entry r' i' j' = entry r0 i' j').
Proof.
  intros Hwf0 Hsh0 Hi Hbody.
  pose (P := fun (n : Z) (r : RowMatrix T) =>
    well_formed r /\ same_shape r m /\
    (forall j, 0 <= j < n -> entry r i j = g j) /\
    (forall i' j', in_range m i' j' -> i' <> i -> entry r i' j' = entry r0 i' j')).
  destruct (for_int_inv P (_cols m) body r0) as (r' & Hrun & Hwf & Hsh & Hrow & Hrest).
  - destruct Hsh0 as [_ Hc]. pose proof (wf_cols r0 Hwf0). lia.
  - split; [exact Hwf0|]. split; [exact Hsh0|].
    split; [intros j Hj; lia | reflexivity].
  - intros n r Hn (Hwf & Hsh & Hrow & Hrest).
    exists (with_element r i n (g n)). split; [now apply Hbody|].
    assert (in_range r i n) as Hin
      by (apply (in_range_same_shape r m); [assumption | split; assumption]).
    split; [now apply well_formed_with_element|].
    split; [exact Hsh|]. split.
    + intros j Hj. destruct (Z.eq_dec j n) as [->|Hne].
      * now apply entry_with_element_eq.
      * rewrite entry_with_element_ne; [apply Hrow; lia | exact Hin | | congruence].
        apply (in_range_same_shape r m); [assumption | split; [assumption | lia]].
    + intros i' j' Hin' Hne.
      rewrite entry_with_element_ne; [now apply Hrest | exact Hin | | congruence].
      now apply (in_range_same_shape r m).
  - exists r'. auto.
Qed.

(** All rows: a loop over i whose body writes row i with [f i]. *)
Lemma fill_rows (f : Z -> Z -> T) (outer : Z -> RowMatrix T -> outcome (RowMatrix T))
    m (r0 : RowMatrix T) :
  well_formed r0 -> same_shape r0 m ->
  (forall i (r : RowMatrix T), 0 <= i < _rows m -> well_formed r -> same_shape r m ->
     exists r',
       outer i r = Ok r' /\ well_formed r' /\ same_shape r' m /\
       (forall j, 0 <= j < _cols m -> entry r' i j = f i j) /\
       (forall i' j', in_range m i' j' -> i' <> i -> entry r' i' j' = entry r i' j')) ->
  exists r',
    for_int (_rows m) outer r0 = Ok r' /\
    well_formed r' /\ same_shape r' m /\
    (forall i j, in_range m i j -> entry r' i j = f i j).
Proof.
  intros Hwf0 Hsh0 Houter.
  pose (P := fun (n : Z) (r : RowMatrix T) =>
    well_formed r /\ same_shape r m /\
    (forall i j, 0 <= i < n -> 0 <= j < _cols m -> entry r i j = f i j)).
  destruct (for_int_inv P (_rows m) outer r0) as (r' & Hrun & Hwf & Hsh & Hall).
  - destruct Hsh0 as [Hr _]. pose proof (wf_rows r0 Hwf0). lia.
  - split; [exact Hwf0|]. split; [exact Hsh0|]. intros i j Hi. lia.
  - intros n r Hn (Hwf & Hsh & Hdone).
    destruct (Houter n r Hn Hwf Hsh) as (r' & Hrun & Hwf' & Hsh' & Hrow & Hrest).
    exists r'. split; [exact Hrun|]. split; [exact Hwf'|]. split; [exact Hsh'|].
    intros i j Hi Hj. destruct (Z.eq_dec i n) as [->|Hne].
    + now apply Hrow.
    + rewrite Hrest; [apply Hdone; lia | split; lia | exact Hne].
  - exists r'. split; [exact Hrun|]. split; [exact Hwf|]. split; [exact Hsh|].
    intros i j [Hi Hj]. now apply Hall.
Qed.

(** ** Construction *)

Lemma RowMatrix_new_ok (rows cols : Z) :
  0 < rows -> 0 < cols -> rows * cols <= INT_MAX ->
  RowMatrix_new indet rows cols = Ok (fresh indet rows cols).
Proof.
  intros Hr Hc Hs. unfold RowMatrix_new, Matrix_new. rewrite !Z.gtb_ltb.
  destruct (Z.ltb_spec 0 rows); [|lia]. destruct (Z.ltb_spec 0 cols); [|lia].
  destruct (Z.leb_spec (rows * cols) INT_MAX); [|lia]. reflexivity.
Qed.

Lemma well_formed_fresh (rows cols : Z) :
  0 < rows -> 0 < cols -> rows * cols <= INT_MAX -> well_formed (fresh indet rows cols).
Proof.
  intros Hr Hc Hs. constructor; cbn; try assumption; try reflexivity.
  rewrite length_replicate. nia.
Qed.

(** Whatever the constructor returns satisfies the invariant. *)
Lemma RowMatrix_new_well_formed (rows cols : Z) m :
  RowMatrix_new indet rows cols = Ok m ->
  well_formed m /\ _rows m = rows /\ _cols m = cols.
Proof.
  unfold RowMatrix_new, Matrix_new. rewrite !Z.gtb_ltb. intros Hnew.
  destruct (Z.ltb_spec 0 rows), (Z.ltb_spec 0 cols);
    cbn [andb bind] in Hnew; try discriminate.
  destruct (Z.leb_spec (rows * cols) INT_MAX); cbn [bind] in Hnew; try discriminate.
  injection Hnew as <-.
  split; [now apply (well_formed_fresh rows cols) | split; reflexivity].
Qed.

(** SetElement keeps the invariant, whether it returns or throws. *)
Lemma SetElement_well_formed m i j v :
  well_formed m -> well_formed (snd (SetElement m i j v)).
Proof.
  intros Hwf. unfold SetElement.
  destruct (out_of_range m i j) eqn:Hout; [exact Hwf|].
  apply in_range_of_test in Hout.
  rewrite store_in_range by assumption. now apply well_formed_with_element.
Qed.

(** ** FillFrom *)

Lemma to_size_t_int (x : Z) : 0 <= x <= INT_MAX -> to_size_t x = x.
Proof. intros Hx. unfold to_size_t, INT_MAX in *. apply Z.mod_small. lia. Qed.

Lemma size_t_product m :
  well_formed m ->
  (to_size_t (_rows m) * to_size_t (_cols m)) mod 2 ^ 64 = _rows m * _cols m.
Proof.
  intros [Hr Hc Hs _ _].
  rewrite !to_size_t_int by nia. apply Z.mod_small. unfold INT_MAX in Hs. nia.
Qed.

Lemma vector_at_ok (source : list T) (n : Z) :
  0 <= n < Z.of_nat (length source) ->
  vector_at source n = Ok (default zero (source !! Z.to_nat n)).
Proof.
  intros Hn. unfold vector_at. destruct (Z.ltb_spec n 0); [lia|].
  destruct (lookup_lt_is_Some_2 source (Z.to_nat n)) as [v ->]; [lia | reflexivity].
Qed.

Lemma FillFrom_loops_ok m (source : list T) :
  well_formed m -> Z.of_nat (length source) = _rows m * _cols m ->
  exists r,
    FillFrom_loops m source = Ok r /\
    well_formed r /\ same_shape r m /\
    (forall i j, in_range m i j ->
       entry r i j = default zero (source !! Z.to_nat (i * _cols m + j))).
Proof.
  intros Hwf Hlen. unfold FillFrom_loops.
  apply (fill_rows (fun i j => default zero (source !! Z.to_nat (i * _cols m + j))));
    [assumption | split; reflexivity |].
  intros i r Hi Hwr Hsr. rewrite (proj2 Hsr).
  apply (fill_row (fun j => default zero (source !! Z.to_nat (i * _cols m + j))));
    try assumption.
  intros j r1 Hj Hw1 Hs1. rewrite (proj2 Hs1).
  pose proof (row_major_bound _ _ i j Hi Hj) as Hb.
  rewrite vector_at_ok by lia. cbn [bind].
  apply store_in_range; [assumption|].
  apply (in_range_same_shape r1 m); [assumption | split; assumption].
Qed.

Lemma linear_of_entries (r : RowMatrix T) (source : list T) :
  well_formed r -> Z.of_nat (length source) = _rows r * _cols r ->
  (forall i j, in_range r i j ->
     entry r i j = default zero (source !! Z.to_nat (i * _cols r + j))) ->
  _linear r = source.
Proof.
  intros Hwf Hlen Hent. pose proof (wf_cols r Hwf) as Hc.
  pose proof (wf_linear r Hwf) as Hl.
  apply (list_eq_same_length _ _ (length source)); [reflexivity | lia |].
  intros n x y Hn Hx Hy.
  assert (in_range r (Z.of_nat n / _cols r) (Z.of_nat n mod _cols r)) as Hin.
  { split; [|now apply Z.mod_pos_bound]. split; [apply Z.div_pos; lia|].
    apply Z.div_lt_upper_bound; lia. }
  assert (Z.to_nat (Z.of_nat n / _cols r * _cols r + Z.of_nat n mod _cols r) = n) as Hidx.
  { rewrite (Z.mul_comm _ (_cols r)), <- Z.div_mod by lia. lia. }
  specialize (Hent _ _ Hin). unfold entry in Hent.
  rewrite Hidx, Hx, Hy in Hent. exact Hent.
Qed.

(** FillFrom keeps the invariant, whether it returns or throws. *)
Lemma FillFrom_well_formed m (source : list T) :
  well_formed m -> well_formed (snd (FillFrom m source)).
Proof.
  intros Hwf. unfold FillFrom. rewrite size_t_product by assumption.
  destruct (Z.eqb_spec (Z.of_nat (length source)) (_rows m * _cols m)) as [Hlen|Hlen];
    cbn [negb]; [|exact Hwf].
  destruct (FillFrom_loops_ok m source Hwf Hlen) as (r & -> & Hwr & _). exact Hwr.
Qed.

(** C7. On a constructed matrix of shape rows x cols: when seq has exactly
    rows * cols elements FillFrom(seq) returns, the shape is kept, the
    buffer holds seq in row-major order and GetElement(i, j) returns
    seq[i * cols + j] at every valid (i, j); when seq has any other length
    FillFrom throws the out-of-range error and leaves the object as it
    was. *)
Theorem FillFrom_spec m (source : list T) :
  well_formed m ->
  (Z.of_nat (length source) = _rows m * _cols m ->
   exists m',
     FillFrom m source = (Ok tt, m') /\
     GetRowCount m' = GetRowCount m /\ GetColumnCount m' = GetColumnCount m /\
     _linear m' = source /\
     forall i j, 0 <= i < _rows m -> 0 <= j < _cols m ->
       exists v,
         source !! Z.to_nat (i * _cols m + j) = Some v /\
         GetElement m' i j = Ok v) /\
  (Z.of_nat (length source) <> _rows m * _cols m ->
   FillFrom m source =
     (Throw (mkException OUT_OF_RANGE "FillFrom out of range"), m)).
Proof.
  intros Hwf. unfold FillFrom. rewrite size_t_product by assumption. split.
  - intros Hlen. rewrite Hlen, Z.eqb_refl. cbn [negb].
    destruct (FillFrom_loops_ok m source Hwf Hlen) as (r & -> & Hwr & [Hrr Hrc] & Hent).
    exists r. cbn [leave]. split; [reflexivity|].
    split; [exact Hrr|]. split; [exact Hrc|]. split.
    + apply linear_of_entries; [assumption | congruence |].
      intros i j Hin. rewrite Hrc. apply Hent.
      unfold in_range in *. now rewrite <- Hrr, <- Hrc.
    + intros i j Hi Hj.
      pose proof (row_major_bound _ _ i j Hi Hj) as Hb.
      destruct (lookup_lt_is_Some_2 source (Z.to_nat (i * _cols m + j))) as [v Hv]; [lia|].
      exists v. split; [exact Hv|].
      rewrite GetElement_in_range; [|assumption | unfold in_range; lia].
      rewrite Hent by (split; assumption). now rewrite Hv.
  - intros Hlen. destruct (Z.eqb_spec (Z.of_nat (length source)) (_rows m * _cols m));
      [contradiction | reflexivity].
Qed.

(** ** Add *)

Lemma Add_loops_ok a b (r0 : RowMatrix T) :
  well_formed a -> well_formed b -> same_shape b a ->
  well_formed r0 -> same_shape r0 a ->
  exists r,
    Add_loops a b r0 (_rows a) (_cols a) = Ok r /\
    well_formed r /\ same_shape r a /\
    (forall i j, in_range a i j -> entry r i j = add (entry a i j) (entry b i j)).
Proof.
  intros Hwa Hwb Hsb Hw0 Hs0. unfold Add_loops.
  apply (fill_rows (fun i j => add (entry a i j) (entry b i j))); try assumption.
  intros i r Hi Hwr Hsr.
  apply (fill_row (fun j => add (entry a i j) (entry b i j))); try assumption.
  intros j r1 Hj Hw1 Hs1.
  assert (in_range a i j) as Hin by (split; assumption).
  rewrite (GetElement_in_range a) by assumption. cbn [bind].
  rewrite (GetElement_in_range b)
    by (try assumption; now apply (in_range_same_shape b a)). cbn [bind].
  rewrite SetElement_in_range
    by (try assumption; now apply (in_range_same_shape r1 a)).
  reflexivity.
Qed.

Lemma Add_present a b :
  well_formed a -> well_formed b ->
  _rows a = _rows b -> _cols a = _cols b ->
  exists r,
    Add indet (Some a) (Some b) = Ok (Some r) /\
    well_formed r /\ same_shape r a /\
    (forall i j, in_range a i j -> entry r i j = add (entry a i j) (entry b i j)).
Proof.
  intros Hwa Hwb Hr Hc.
  assert (same_shape b a) as Hsb by (split; congruence).
  pose proof (wf_rows a Hwa) as Hra. pose proof (wf_cols a Hwa) as Hca.
  pose proof (wf_size a Hwa) as Hsa.
  destruct (Add_loops_ok a b (fresh indet (_rows a) (_cols a)) Hwa Hwb Hsb)
    as (r & Hrun & Hwr & Hsr & Hent).
  - now apply well_formed_fresh.
  - split; reflexivity.
  - exists r. split; [|auto].
    unfold Add. cbn [is_null orb deref bind]. unfold GetRowCount, GetColumnCount.
    rewrite <- Hr, <- Hc, !Z.eqb_refl. cbn [negb orb].
    rewrite RowMatrix_new_ok by assumption. cbn [bind].
    now rewrite Hrun.
Qed.

Lemma Add_shape_mismatch a b :
  _rows a <> _rows b \/ _cols a <> _cols b ->
  Add indet (Some a) (Some b) = Ok None.
Proof.
  intros Hne. unfold Add. cbn [is_null orb deref bind].
  unfold GetRowCount, GetColumnCount.
  destruct (Z.eqb_spec (_rows a) (_rows b)), (Z.eqb_spec (_cols a) (_cols b));
    cbn [negb orb]; try reflexivity. lia.
Qed.

Lemma Add_null_left (pb : option (RowMatrix T)) : Add indet None pb = Ok None.
Proof. reflexivity. Qed.

Lemma Add_null_right (pa : option (RowMatrix T)) : Add indet pa None = Ok None.
Proof. now destruct pa. Qed.

(** C8. For constructed operands A and B of equal shape, Add(A, B) returns
    a matrix R of that shape with R[i][j] = A[i][j] + B[i][j] at every valid
    (i, j), and when + commutes Add(B, A) returns a matrix with the same
    elements; when the shapes differ, or an operand is null, Add returns
    the null result. *)
Theorem Add_spec a b :
  well_formed a -> well_formed b ->
  (_rows a = _rows b -> _cols a = _cols b ->
   exists r,
     Add indet (Some a) (Some b) = Ok (Some r) /\
     GetRowCount r = GetRowCount a /\ GetColumnCount r = GetColumnCount a /\
     (forall i j, 0 <= i < _rows a -> 0 <= j < _cols a ->
        exists x y,
          GetElement a i j = Ok x /\ GetElement b i j = Ok y /\
          GetElement r i j = Ok (add x y)) /\
     ((forall x y : T, add x y = add y x) ->
      exists r',
        Add indet (Some b) (Some a) = Ok (Some r') /\
        GetRowCount r' = GetRowCount r /\ GetColumnCount r' = GetColumnCount r /\
        forall i j, GetElement r' i j = GetElement r i j)) /\
  (_rows a <> _rows b \/ _cols a <> _cols b ->
   Add indet (Some a) (Some b) = Ok None) /\
  Add indet None (Some b) = Ok None /\
  Add indet (Some a) None = Ok None /\
  Add indet None None = Ok None.
Proof.
  intros Hwa Hwb. split; [|split; [apply Add_shape_mismatch | repeat split; reflexivity]].
  intros Hr Hc.
  destruct (Add_present a b Hwa Hwb Hr Hc) as (r & Hrun & Hwr & [Hrr Hrc] & Hent).
  exists r. split; [exact Hrun|]. split; [exact Hrr|]. split; [exact Hrc|]. split.
  - intros i j Hi Hj. assert (in_range a i j) as Hin by (split; assumption).
    exists (entry a i j), (entry b i j).
    split; [now apply GetElement_in_range|].
    split; [apply GetElement_in_range; [assumption | unfold in_range; lia]|].
    rewrite GetElement_in_range; [now rewrite Hent | assumption | unfold in_range; lia].
  - intros Hcomm.
    destruct (Add_present b a Hwb Hwa (eq_sym Hr) (eq_sym Hc))
      as (r' & Hrun' & Hwr' & [Hrr' Hrc'] & Hent').
    exists r'. split; [exact Hrun'|].
    unfold GetRowCount, GetColumnCount.
    split; [congruence|]. split; [congruence|].
    intros i j. unfold GetElement.
    rewrite (out_of_range_shape r r') by congruence.
    destruct (out_of_range r i j) eqn:Hout; [reflexivity|].
    apply in_range_of_test in Hout as Hin.
    rewrite !load_in_range; try assumption.
    + rewrite Hent', Hent; [now rewrite Hcomm | |]; unfold in_range in *; lia.
    + unfold in_range in *. lia.
Qed.

(** ** Multiply *)

Lemma sum_from_zero_S (n : nat) (f : Z -> T) :
  sum_from_zero (S n) f = add (sum_from_zero n f) (f (Z.of_nat n)).
Proof.
  unfold sum_from_zero. rewrite seqZ_S, fold_left_app. cbn [fold_left].
  now rewrite Z.add_0_l.
Qed.

Lemma Multiply_accumulate_ok a b i j :
  well_formed a -> well_formed b -> _cols a = _rows b ->
  0 <= i < _rows a -> 0 <= j < _cols b ->
  Multiply_accumulate a b i j (_cols a) = Ok (product_entry a b i j).
Proof.
  intros Hwa Hwb Hinner Hi Hj. unfold Multiply_accumulate, product_entry.
  set (f := fun k => mul (entry a i k) (entry b k j)).
  destruct (for_int_inv (fun n tmp => tmp = sum_from_zero (Z.to_nat n) f) (_cols a)
              (fun k tmp => x <- GetElement a i k ;; y <- GetElement b k j ;;
                            Ok (add tmp (mul x y))) zero)
    as (tmp & Hrun & ->).
  - pose proof (wf_cols a Hwa). lia.
  - reflexivity.
  - intros k tmp Hk ->.
    rewrite (GetElement_in_range a) by (try assumption; split; assumption). cbn [bind].
    rewrite (GetElement_in_range b) by (try assumption; unfold in_range; lia).
    cbn [bind]. eexists. split; [reflexivity|].
    replace (Z.to_nat (k + 1)) with (S (Z.to_nat k)) by lia.
    rewrite sum_from_zero_S, Z2Nat.id by lia. reflexivity.
  - exact Hrun.
Qed.

Lemma Multiply_loops_ok a b (r0 : RowMatrix T) :
  well_formed a -> well_formed b -> _cols a = _rows b ->
  well_formed r0 -> _rows r0 = _rows a -> _cols r0 = _cols b ->
  exists r,
    Multiply_loops a b r0 (_rows a) (_cols a) (_cols b) = Ok r /\
    well_formed r /\ same_shape r r0 /\
    (forall i j, in_range r0 i j -> entry r i j = product_entry a b i j).
Proof.
  intros Hwa Hwb Hinner Hw0 Hr0 Hc0. unfold Multiply_loops.
  rewrite <- Hr0, <- Hc0.
  apply (fill_rows (product_entry a b)); [assumption | split; reflexivity |].
  intros i r Hi Hwr Hsr.
  apply (fill_row (product_entry a b i)); try assumption.
  intros j r1 Hj Hw1 Hs1.
  rewrite Multiply_accumulate_ok by (try assumption; lia). cbn [bind].
  rewrite SetElement_in_range; [reflexivity | assumption |].
  apply (in_range_same_shape r1 r0); [assumption | split; assumption].
Qed.

Lemma Multiply_never_present (pa pb : option (RowMatrix T)) (r : RowMatrix T) :
  Multiply indet pa pb <> Ok (Some r).
Proof.
  unfold Multiply. destruct pa as [a|], pb as [b|]; cbn [is_null orb deref bind];
    try discriminate.
  destruct (negb _); [discriminate|].
  destruct (RowMatrix_new _ _ _) as [r0| | |]; cbn [bind]; try discriminate.
  destruct (Multiply_loops _ _ _ _ _ _); cbn [bind]; discriminate.
Qed.

Lemma Multiply_shape_mismatch a b :
  _cols a <> _rows b -> Multiply indet (Some a) (Some b) = Ok None.
Proof.
  intros Hne. unfold Multiply. cbn [is_null orb deref bind].
  unfold GetRowCount, GetColumnCount.
  destruct (Z.eqb_spec (_cols a) (_rows b)); [contradiction | reflexivity].
Qed.

Lemma Multiply_compatible a b :
  well_formed a -> well_formed b -> _cols a = _rows b ->
  _rows a * _cols b <= INT_MAX ->
  Multiply indet (Some a) (Some b) = Ok None /\
  exists r,
    Multiply_loops a b (fresh indet (_rows a) (_cols b)) (_rows a) (_cols a) (_cols b) = Ok r /\
    well_formed r /\ _rows r = _rows a /\ _cols r = _cols b /\
    (forall i j, 0 <= i < _rows a -> 0 <= j < _cols b ->
       entry r i j = product_entry a b i j).
Proof.
  intros Hwa Hwb Hinner Hsize.
  pose proof (wf_rows a Hwa) as Hra. pose proof (wf_cols b Hwb) as Hcb.
  destruct (Multiply_loops_ok a b (fresh indet (_rows a) (_cols b)) Hwa Hwb Hinner)
    as (r & Hrun & Hwr & [Hrr Hrc] & Hent);
    [now apply well_formed_fresh | reflexivity | reflexivity |].
  split.
  - unfold Multiply. cbn [is_null orb deref bind]. unfold GetRowCount, GetColumnCount.
    rewrite Hinner, Z.eqb_refl. cbn [negb].
    rewrite RowMatrix_new_ok by assumption. cbn [bind].
    rewrite <- Hinner. now rewrite Hrun.
  - exists r. split; [exact Hrun|]. split; [exact Hwr|].
    split; [exact Hrr|]. split; [exact Hrc|].
    intros i j Hi Hj. apply Hent. split; assumption.
Qed.

Lemma RowMatrix_new_no_throw (rows cols : Z) (e : Exception) :
  RowMatrix_new indet rows cols <> Throw e.
Proof.
  unfold RowMatrix_new, Matrix_new.
  destruct (_ && _); [|discriminate].
  destruct (_ <=? _); discriminate.
Qed.

(** A product the constructor cannot size: Multiply stops there. *)
Lemma Multiply_result_too_large a b :
  0 < _rows a -> 0 < _cols b -> _cols a = _rows b ->
  INT_MAX < _rows a * _cols b ->
  Multiply indet (Some a) (Some b) = Undefined.
Proof.
  intros Hr Hc Hinner Hbig. unfold Multiply. cbn [is_null orb deref bind].
  unfold GetRowCount, GetColumnCount. rewrite Hinner, Z.eqb_refl. cbn [negb].
  unfold RowMatrix_new, Matrix_new. rewrite !Z.gtb_ltb.
  destruct (Z.ltb_spec 0 (_rows a)); [|lia].
  destruct (Z.ltb_spec 0 (_cols b)); [|lia].
  destruct (Z.leb_spec (_rows a * _cols b) INT_MAX); [lia|]. reflexivity.
Qed.

(** C2 (amended). Multiply returns a present matrix on no input. With a
    null operand, or with A.cols <> B.rows, it returns the null result at
    once. With non-null operands, A.cols = B.rows and a result the
    constructor builds, it runs the accumulation loops on that result and
    its outcome is theirs with the value dropped; on constructed operands
    whose product has a size A.rows * B.cols that fits an int, the loops
    return with the product in the local result and Multiply returns the
    null result. *)
Theorem Multiply_runs_loops_then_returns_null :
  (forall (pa pb : option (RowMatrix T)) (r : RowMatrix T),
     Multiply indet pa pb <> Ok (Some r)) /\
  (forall pa pb : option (RowMatrix T),
     pa = None \/ pb = None -> Multiply indet pa pb = Ok None) /\
  (forall a b, _cols a <> _rows b -> Multiply indet (Some a) (Some b) = Ok None) /\
  (forall a b (r0 : RowMatrix T),
     _cols a = _rows b ->
     RowMatrix_new indet (_rows a) (_cols b) = Ok r0 ->
     Multiply indet (Some a) (Some b)
       = (_ <- Multiply_loops a b r0 (_rows a) (_cols a) (_cols b) ;; Ok None)) /\
  (forall a b,
     well_formed a -> well_formed b -> _cols a = _rows b ->
     _rows a * _cols b <= INT_MAX ->
     Multiply indet (Some a) (Some b) = Ok None /\
     exists r,
       Multiply_loops a b (fresh indet (_rows a) (_cols b))
         (_rows a) (_cols a) (_cols b) = Ok r /\
       forall i j, 0 <= i < _rows a -> 0 <= j < _cols b ->
         GetElement r i j = Ok (product_entry a b i j)).
Proof.
  split; [intros pa pb r; apply Multiply_never_present|].
  split; [|split; [intros a b; apply Multiply_shape_mismatch|split]].
  - intros pa pb [-> | ->]; [reflexivity | now destruct pa].
  - intros a b r0 Hinner Hnew. unfold Multiply. cbn [is_null orb deref bind].
    unfold GetRowCount, GetColumnCount.
    rewrite Hinner at 1. rewrite Z.eqb_refl. cbn [negb].
    now rewrite Hnew.
  - intros a b Hwa Hwb Hinner Hsize.
    destruct (Multiply_compatible a b Hwa Hwb Hinner Hsize)
      as (Hnull & r & Hrun & Hwr & Hrr & Hrc & Hent).
    split; [exact Hnull|].
    exists r. split; [exact Hrun|]. intros i j Hi Hj.
    rewrite GetElement_in_range; [now rewrite Hent | assumption | unfold in_range; lia].
Qed.

(** C9. With constructed operands, past the null and shape checks, every
    GetElement and SetElement call inside Add and Multiply is in range:
    Add returns, the loops of Multiply return on any constructed result of
    shape A.rows x B.cols, and Multiply throws nothing. *)
Theorem Add_Multiply_never_throw a b :
  well_formed a -> well_formed b ->
  (exists p, Add indet (Some a) (Some b) = Ok p) /\
  (_cols a = _rows b ->
   forall r0 : RowMatrix T,
     well_formed r0 -> _rows r0 = _rows a -> _cols r0 = _cols b ->
     exists r, Multiply_loops a b r0 (_rows a) (_cols a) (_cols b) = Ok r) /\
  (forall e, Multiply indet (Some a) (Some b) <> Throw e).
Proof.
  intros Hwa Hwb. split; [|split].
  - destruct (Z.eq_dec (_rows a) (_rows b)) as [Hr|Hr];
      [destruct (Z.eq_dec (_cols a) (_cols b)) as [Hc|Hc]|].
    + destruct (Add_present a b Hwa Hwb Hr Hc) as (r & Hrun & _). eauto.
    + exists None. apply Add_shape_mismatch. now right.
    + exists None. apply Add_shape_mismatch. now left.
  - intros Hinner r0 Hw0 Hr0 Hc0.
    destruct (Multiply_loops_ok a b r0 Hwa Hwb Hinner Hw0 Hr0 Hc0) as (r & Hrun & _).
    eauto.
  - intros e. unfold Multiply. cbn [is_null orb deref bind].
    unfold GetRowCount, GetColumnCount.
    destruct (Z.eqb_spec (_cols a) (_rows b)) as [Hinner|Hne]; cbn [negb];
      [|discriminate].
    destruct (RowMatrix_new indet (_rows a) (_cols b)) as [r0|e0| |] eqn:Hnew;
      cbn [bind]; try discriminate.
    + destruct (RowMatrix_new_well_formed _ _ _ Hnew) as (Hw0 & Hr0 & Hc0).
      destruct (Multiply_loops_ok a b r0 Hwa Hwb Hinner Hw0 Hr0 Hc0) as (r & -> & _).
      discriminate.
    + now apply RowMatrix_new_no_throw in Hnew.
Qed.

(** ** Multiply followed by Add *)

(** X13. Whatever pointer Multiply returns, Add called with it as first
    operand returns the null result, for every second operand: the pointer
    is null and Add returns at its null check. *)
Theorem Add_of_Multiply_result (pa pb pc p : option (RowMatrix T)) :
  Multiply indet pa pb = Ok p ->
  p = None /\ Add indet p pc = Ok None.
Proof.
  intros Hmul. destruct p as [r|].
  - now apply Multiply_never_present in Hmul.
  - split; [reflexivity | apply Add_null_left].
Qed.

(** ** The constructor, seen from outside *)

(** X1. For a positive shape whose size fits an int the constructor
    returns a matrix that reports that shape, owns a buffer of rows * cols
    elements, has row pointer i at offset i * cols for every row, and
    satisfies the invariant. *)
Theorem RowMatrix_new_spec (rows cols : Z) :
  0 < rows -> 0 < cols -> rows * cols <= INT_MAX ->
  exists m,
    RowMatrix_new indet rows cols = Ok m /\
    GetRowCount m = rows /\ GetColumnCount m = cols /\
    Z.of_nat (length (_linear m)) = rows * cols /\
    (forall i, 0 <= i < rows -> _data m !! Z.to_nat i = Some (i * cols)) /\
    well_formed m.
Proof.
  intros Hr Hc Hs. exists (fresh indet rows cols).
  split; [now apply RowMatrix_new_ok|]. split; [reflexivity|]. split; [reflexivity|].
  pose proof (well_formed_fresh rows cols Hr Hc Hs) as Hwf.
  split; [exact (wf_linear _ Hwf)|]. split; [|exact Hwf].
  intros i Hi. cbn [fresh _data]. rewrite row_pointers_lookup by lia.
  f_equal. lia.
Qed.

(** ** Row-major layout *)

(** X3. On a constructed matrix and an in-range (i, j): row pointer i is
    the offset i * cols, GetElement reads the buffer at i * cols + j, and
    SetElement replaces the buffer element at i * cols + j and nothing
    else of the object. *)
Theorem row_major_layout m i j v :
  well_formed m -> 0 <= i < _rows m -> 0 <= j < _cols m ->
  _data m !! Z.to_nat i = Some (i * _cols m) /\
  (exists x,
     _linear m !! Z.to_nat (i * _cols m + j) = Some x /\ GetElement m i j = Ok x) /\
  SetElement m i j v =
    (Ok tt, with_buffer m (<[Z.to_nat (i * _cols m + j) := v]> (_linear m))).
Proof.
  intros Hwf Hi Hj. assert (in_range m i j) as Hin by (split; assumption).
  split; [|split].
  - rewrite (wf_data m Hwf), row_pointers_lookup, Z2Nat.id by lia. reflexivity.
  - exists (entry m i j).
    split; [now apply linear_lookup_in_range | now apply GetElement_in_range].
  - now apply SetElement_in_range.
Qed.

(** ** What the member functions keep *)

Lemma for_range_preserves {St : Type} (Q : St -> Prop)
    (body : Z -> St -> outcome St) :
  (forall k s s', Q s -> body k s = Ok s' -> Q s') ->
  forall (trips : nat) (i : Z) (s s' : St),
    Q s -> for_range trips i body s = Ok s' -> Q s'.
Proof.
  intros Hbody. induction trips as [|n IH]; intros i s s' Hs Hrun; cbn in Hrun.
  - now injection Hrun as <-.
  - destruct (body i s) as [t| | |] eqn:Hstep; cbn in Hrun; try discriminate.
    apply (IH (i + 1) t s'); [now apply (Hbody i s t) | exact Hrun].
Qed.

Lemma store_same_frame m (m' : RowMatrix T) i j v :
  store m i j v = Ok m' -> same_frame m' m.
Proof.
  unfold store. destruct (data_index m i j); [|discriminate].
  intros Hm'. injection Hm' as <-. repeat split.
Qed.

Lemma same_frame_refl m : same_frame m m.
Proof. repeat split. Qed.

Lemma same_frame_trans (r s m : RowMatrix T) :
  same_frame r s -> same_frame s m -> same_frame r m.
Proof. unfold same_frame. intros (-> & -> & ->) (-> & -> & ->). auto. Qed.

Lemma FillFrom_loops_same_frame m (m' : RowMatrix T) (source : list T) :
  FillFrom_loops m source = Ok m' -> same_frame m' m.
Proof.
  unfold FillFrom_loops, for_int.
  apply (for_range_preserves (fun s => same_frame s m)); [|apply same_frame_refl].
  intros i s s' Hs.
  apply (for_range_preserves (fun t => same_frame t m)); [|exact Hs].
  intros j t t' Ht Hbody.
  destruct (vector_at source (i * _cols t + j)) as [x| | |]; cbn in Hbody;
    try discriminate.
  apply (same_frame_trans t' t m); [now apply (store_same_frame t t' i j x) | exact Ht].
Qed.

(** X4. Whatever the object, the arguments and the outcome, SetElement
    and FillFrom leave the row count, the column count and the row
    pointers as they were. *)
Theorem shape_is_immutable m i j v (source : list T) :
  same_frame (snd (SetElement m i j v)) m /\
  same_frame (snd (FillFrom m source)) m.
Proof.
  split.
  - unfold SetElement. destruct (out_of_range m i j); [apply same_frame_refl|].
    destruct (store m i j v) as [m'| | |] eqn:Hstore; cbn [leave snd];
      try apply same_frame_refl.
    now apply (store_same_frame m m' i j v).
  - unfold FillFrom. destruct (negb _); [apply same_frame_refl|].
    destruct (FillFrom_loops m source) as [m'| | |] eqn:Hloops; cbn [leave snd];
      try apply same_frame_refl.
    now apply (FillFrom_loops_same_frame m m' source).
Qed.

(** X5. SetElement and FillFrom keep the invariant of a constructed
    matrix, whether they return or throw. *)
Theorem member_functions_keep_invariant m i j v (source : list T) :
  well_formed m ->
  well_formed (snd (SetElement m i j v)) /\
  well_formed (snd (FillFrom m source)).
Proof.
  intros Hwf. split; [now apply SetElement_well_formed | now apply FillFrom_well_formed].
Qed.

(** X6. On a constructed matrix GetElement, SetElement and FillFrom return
    or throw for every argument: no call reads or writes outside the
    buffer or outside the source sequence. *)
Theorem member_functions_defined m i j v (source : list T) :
  well_formed m ->
  returns_or_throws (GetElement m i j) /\
  returns_or_throws (fst (SetElement m i j v)) /\
  returns_or_throws (fst (FillFrom m source)).
Proof.
  intros Hwf. split; [|split].
  - unfold GetElement. destruct (out_of_range m i j) eqn:Hout; [exact I|].
    apply in_range_of_test in Hout. now rewrite load_in_range.
  - unfold SetElement. destruct (out_of_range m i j) eqn:Hout; [exact I|].
    apply in_range_of_test in Hout. now rewrite store_in_range.
  - unfold FillFrom. rewrite size_t_product by assumption.
    destruct (Z.eqb_spec (Z.of_nat (length source)) (_rows m * _cols m)) as [Hlen|Hlen];
      cbn [negb]; [|exact I].
    destruct (FillFrom_loops_ok m source Hwf Hlen) as (r & -> & _). exact I.
Qed.

(** ** Successive writes *)

Lemma with_element_again m i j v w :
  with_element (with_element m i j v) i j w = with_element m i j w.
Proof. unfold with_element. cbn. now rewrite list_insert_insert_eq. Qed.

Lemma with_element_swap m i j i' j' v w :
  in_range m i j -> in_range m i' j' -> (i', j') <> (i, j) ->
  with_element (with_element m i j v) i' j' w
    = with_element (with_element m i' j' w) i j v.
Proof.
  intros [Hi Hj] [Hi' Hj'] Hne. unfold with_element. cbn. f_equal.
  pose proof (row_major_bound _ _ i j Hi Hj) as Hb.
  pose proof (row_major_bound _ _ i' j' Hi' Hj') as Hb'.
  apply list_insert_insert_ne. intros Heq. apply Hne.
  destruct (row_major_inj (_cols m) i' j' i j Hj' Hj) as [-> ->]; [lia | reflexivity].
Qed.

(** X7. Two in-range SetElement calls at the same indices leave the
    matrix that the second call alone leaves. *)
Theorem SetElement_last_write_wins m i j v w :
  well_formed m -> 0 <= i < _rows m -> 0 <= j < _cols m ->
  exists m1 m2,
    SetElement m i j v = (Ok tt, m1) /\
    SetElement m1 i j w = (Ok tt, m2) /\
    SetElement m i j w = (Ok tt, m2).
Proof.
  intros Hwf Hi Hj. assert (in_range m i j) as Hin by (split; assumption).
  exists (with_element m i j v), (with_element m i j w).
  split; [now apply SetElement_in_range|]. split; [|now apply SetElement_in_range].
  rewrite SetElement_in_range;
    [now rewrite with_element_again | now apply well_formed_with_element | exact Hin].
Qed.

(** X8. In-range SetElement calls at two different index pairs commute:
    either order leaves the same matrix. *)
Theorem SetElement_commute m i j i' j' v w :
  well_formed m ->
  0 <= i < _rows m -> 0 <= j < _cols m ->
  0 <= i' < _rows m -> 0 <= j' < _cols m ->
  (i', j') <> (i, j) ->
  exists m1 m2 m12,
    SetElement m i j v = (Ok tt, m1) /\ SetElement m1 i' j' w = (Ok tt, m12) /\
    SetElement m i' j' w = (Ok tt, m2) /\ SetElement m2 i j v = (Ok tt, m12).
Proof.
  intros Hwf Hi Hj Hi' Hj' Hne.
  assert (in_range m i j) as Hin by (split; assumption).
  assert (in_range m i' j') as Hin' by (split; assumption).
  exists (with_element m i j v), (with_element m i' j' w),
    (with_element (with_element m i j v) i' j' w).
  split; [now apply SetElement_in_range|].
  split; [apply SetElement_in_range; [now apply well_formed_with_element | exact Hin']|].
  split; [now apply SetElement_in_range|].
  rewrite SetElement_in_range;
    [now rewrite with_element_swap | now apply well_formed_with_element | exact Hin].
Qed.

(** X9. Writing back with SetElement the value GetElement has just
    returned leaves the matrix as it was. *)
Theorem SetElement_of_GetElement m i j v :
  well_formed m -> GetElement m i j = Ok v ->
  SetElement m i j v = (Ok tt, m).
Proof.
  intros Hwf Hget. unfold GetElement in Hget.
  destruct (out_of_range m i j) eqn:Hout; [discriminate|].
  apply in_range_of_test in Hout as Hin.
  rewrite load_in_range in Hget by assumption. injection Hget as <-.
  rewrite SetElement_in_range by assumption. f_equal.
  unfold with_element. rewrite list_insert_id by now apply linear_lookup_in_range.
  now destruct m.
Qed.

(** ** What FillFrom leaves *)

Lemma matrix_of_entries (r m : RowMatrix T) (source : list T) :
  well_formed r -> well_formed m -> same_shape r m ->
  Z.of_nat (length source) = _rows m * _cols m ->
  (forall i j, in_range m i j ->
     entry r i j = default zero (source !! Z.to_nat (i * _cols m + j))) ->
  r = with_buffer m source.
Proof.
  intros Hwr Hwm [Hrr Hrc] Hlen Hent.
  assert (_linear r = source) as Hlin.
  { apply linear_of_entries; [assumption | congruence |].
    intros i j Hin. rewrite Hrc. apply Hent.
    unfold in_range in *. now rewrite <- Hrr, <- Hrc. }
  pose proof (wf_data r Hwr) as Hdr. pose proof (wf_data m Hwm) as Hdm.
  unfold with_buffer. destruct r, m; cbn in *. f_equal; congruence.
Qed.

Lemma FillFrom_exact m (source : list T) :
  well_formed m -> Z.of_nat (length source) = _rows m * _cols m ->
  FillFrom m source = (Ok tt, with_buffer m source).
Proof.
  intros Hwf Hlen. unfold FillFrom.
  rewrite size_t_product, Hlen, Z.eqb_refl by assumption. cbn [negb].
  destruct (FillFrom_loops_ok m source Hwf Hlen) as (r & -> & Hwr & Hsh & Hent).
  cbn [leave]. f_equal. now apply matrix_of_entries.
Qed.

Lemma well_formed_with_buffer m (source : list T) :
  well_formed m -> Z.of_nat (length source) = _rows m * _cols m ->
  well_formed (with_buffer m source).
Proof. intros [Hr Hc Hs Hl Hd] Hlen. now constructor. Qed.

(** X10. On a constructed matrix a FillFrom of the right length replaces
    the whole buffer and nothing else: it erases an earlier FillFrom and
    any earlier SetElement, and filling a matrix from its own buffer
    leaves it as it was. *)
Theorem FillFrom_overwrites m (s1 s2 : list T) i j v :
  well_formed m ->
  Z.of_nat (length s1) = _rows m * _cols m ->
  Z.of_nat (length s2) = _rows m * _cols m ->
  FillFrom m s2 = (Ok tt, with_buffer m s2) /\
  FillFrom (snd (FillFrom m s1)) s2 = FillFrom m s2 /\
  FillFrom (snd (SetElement m i j v)) s2 = FillFrom m s2 /\
  FillFrom m (_linear m) = (Ok tt, m).
Proof.
  intros Hwf Hl1 Hl2. split; [now apply FillFrom_exact|]. split; [|split].
  - rewrite (FillFrom_exact m s1), (FillFrom_exact m s2) by assumption. cbn [snd].
    rewrite FillFrom_exact; [reflexivity | now apply well_formed_with_buffer | exact Hl2].
  - rewrite (FillFrom_exact m s2) by assumption. unfold SetElement.
    destruct (out_of_range m i j) eqn:Hout; cbn [snd]; [now apply FillFrom_exact|].
    apply in_range_of_test in Hout.
    rewrite store_in_range by assumption. cbn [leave snd].
    rewrite FillFrom_exact;
      [reflexivity | now apply well_formed_with_element | exact Hl2].
  - rewrite FillFrom_exact; [now destruct m | exact Hwf | exact (wf_linear m Hwf)].
Qed.

(** ** What Add returns *)

Lemma Add_exact a b :
  well_formed a -> well_formed b -> _rows a = _rows b -> _cols a = _cols b ->
  Add indet (Some a) (Some b)
    = Ok (Some (with_buffer a (zip_with add (_linear a) (_linear b)))).
Proof.
  intros Hwa Hwb Hr Hc.
  destruct (Add_present a b Hwa Hwb Hr Hc) as (r & -> & Hwr & Hsr & Hent).
  do 2 f_equal. apply matrix_of_entries; try assumption.
  - rewrite length_zip_with.
    pose proof (wf_linear a Hwa). pose proof (wf_linear b Hwb). nia.
  - intros i j Hin. rewrite Hent by assumption.
    assert (in_range b i j) as Hinb by (unfold in_range in *; lia).
    rewrite lookup_zip_with, (linear_lookup_in_range a) by assumption. cbn.
    rewrite Hc, (linear_lookup_in_range b) by assumption. reflexivity.
Qed.

Lemma zip_with_add_assoc (l1 l2 l3 : list T) :
  (forall x y z : T, add (add x y) z = add x (add y z)) ->
  zip_with add (zip_with add l1 l2) l3 = zip_with add l1 (zip_with add l2 l3).
Proof.
  intros Hassoc. revert l2 l3.
  induction l1 as [|x l1 IH]; intros [|y l2] [|z l3]; cbn; try reflexivity.
  now rewrite Hassoc, IH.
Qed.

(** X12. When + is associative, Add is: for constructed A, B, C of one
    shape, Add(Add(A, B), C) and Add(A, Add(B, C)) return the same
    matrix. *)
Theorem Add_assoc a b c :
  (forall x y z : T, add (add x y) z = add x (add y z)) ->
  well_formed a -> well_formed b -> well_formed c ->
  _rows a = _rows b -> _cols a = _cols b ->
  _rows b = _rows c -> _cols b = _cols c ->
  exists ab bc r,
    Add indet (Some a) (Some b) = Ok (Some ab) /\
    Add indet (Some b) (Some c) = Ok (Some bc) /\
    Add indet (Some ab) (Some c) = Ok (Some r) /\
    Add indet (Some a) (Some bc) = Ok (Some r).
Proof.
  intros Hassoc Hwa Hwb Hwc Hr Hc Hr' Hc'.
  pose proof (wf_linear a Hwa) as Hla. pose proof (wf_linear b Hwb) as Hlb.
  pose proof (wf_linear c Hwc) as Hlc.
  set (ab := with_buffer a (zip_with add (_linear a) (_linear b))).
  set (bc := with_buffer b (zip_with add (_linear b) (_linear c))).
  assert (well_formed ab) as Hwab
    by (apply well_formed_with_buffer; [assumption | rewrite length_zip_with; nia]).
  assert (well_formed bc) as Hwbc
    by (apply well_formed_with_buffer; [assumption | rewrite length_zip_with; nia]).
  exists ab, bc, (with_buffer a (zip_with add (_linear ab) (_linear c))).
  split; [now apply Add_exact|]. split; [now apply Add_exact|]. split.
  - rewrite Add_exact; [reflexivity | assumption | assumption | | ]; cbn; congruence.
  - rewrite Add_exact; [| assumption | assumption | | ]; [|cbn; congruence..].
    cbn. now rewrite zip_with_add_assoc.
Qed.

End Properties.

(** X11. For constructed operands of equal shape the matrix Add returns
    has the shape and row pointers of A and, as buffer, the elementwise
    sum of the two buffers; it is the same whatever the uninitialised
    buffer handed out by the constructor held. *)
Theorem Add_result_is_determined {T : Type} `{Elem T} (indet indet' : T)
    (a b : RowMatrix T) :
  well_formed a -> well_formed b -> _rows a = _rows b -> _cols a = _cols b ->
  exists r,
    Add indet (Some a) (Some b) = Ok (Some r) /\
    Add indet' (Some a) (Some b) = Ok (Some r) /\
    _linear r = zip_with add (_linear a) (_linear b) /\
    same_frame r a /\ well_formed r.
Proof.
  intros Hwa Hwb Hr Hc.
  exists (with_buffer a (zip_with add (_linear a) (_linear b))).
  split; [now apply Add_exact|]. split; [now apply Add_exact|].
  split; [reflexivity|]. split; [repeat split|].
  apply well_formed_with_buffer; [assumption|].
  rewrite length_zip_with.
  pose proof (wf_linear a Hwa). pose proof (wf_linear b Hwb). nia.
Qed.

(** ** The test matrices *)

Lemma well_formed_int_matrix (rows cols : Z) (elems : list Z) :
  0 < rows -> 0 < cols -> rows * cols <= INT_MAX ->
  Z.of_nat (length elems) = rows * cols ->
  well_formed (int_matrix rows cols elems).
Proof. intros Hr Hc Hs Hl. now constructor. Defined.

Lemma well_formed_matA : well_formed matA.
Proof. apply well_formed_int_matrix; unfold INT_MAX; (reflexivity || lia). Defined.

Lemma well_formed_matB : well_formed matB.
Proof. apply well_formed_int_matrix; unfold INT_MAX; (reflexivity || lia). Defined.

Lemma well_formed_matC : well_formed matC.
Proof. apply well_formed_int_matrix; unfold INT_MAX; (reflexivity || lia). Defined.

Lemma well_formed_mat23 : well_formed mat23.
Proof. apply well_formed_int_matrix; unfold INT_MAX; (reflexivity || lia). Defined.

Lemma well_formed_mat32 : well_formed mat32.
Proof. apply well_formed_int_matrix; unfold INT_MAX; (reflexivity || lia). Defined.

(** Constructing a 2 x 2 matrix and filling it gives [matA], whatever the
    fresh buffer held. *)
Example matA_built (indet : Z) :
  (m <- RowMatrix_new indet 2 2 ;; updated (FillFrom m [1; 2; 3; 4])) = Ok matA.
Proof. reflexivity. Qed.

(** ** Multiply and Add on the scenario of the spec *)

(** C1 (the code departs from it). For A = [[1,2],[3,4]] and
    B = [[5,6],[7,8]] the loops of Multiply leave [[19,22],[43,50]] in the
    local result, and Multiply returns the null pointer instead of it. *)
Theorem Multiply_scenario_returns_null (indet : Z) :
  Multiply_loops matA matB (fresh indet 2 2) 2 2 2
    = Ok (int_matrix 2 2 [19; 22; 43; 50]) /\
  Multiply indet (Some matA) (Some matB) = Ok None.
Proof. split; vm_compute; reflexivity. Qed.

(** C3 (the code departs from it). GEMM has no instance to run. Of the
    two calls it names, on A = [[1,2],[3,4]], B = [[5,6],[7,8]] and
    C = [[1,1],[1,1]]: Multiply(A, B) returns the null pointer, Add of the
    null pointer and C returns the null pointer, and only Add of the
    product [[19,22],[43,50]] and C returns [[20,23],[44,51]]. *)
Theorem GEMM_steps_on_scenario (indet : Z) :
  Multiply indet (Some matA) (Some matB) = Ok None /\
  Add indet None (Some matC) = Ok None /\
  Add indet (Some (int_matrix 2 2 [19; 22; 43; 50])) (Some matC)
    = Ok (Some (int_matrix 2 2 [20; 23; 44; 51])).
Proof. repeat split; vm_compute; reflexivity. Qed.

(** C2 as first worded fails on a product too large for the constructor:
    a 46341 x 1 matrix times a 1 x 46341 matrix. Both operands are
    constructed and A.cols = B.rows, yet the result would have 46341 *
    46341 elements, more than INT_MAX, and Multiply does not return. *)
Lemma Multiply_product_too_large :
  well_formed tall /\ well_formed wide /\ _cols tall = _rows wide /\
  Multiply 0 (Some tall) (Some wide) <> Ok None.
Proof.
  split; [|split; [|split; [reflexivity|]]].
  - apply well_formed_int_matrix; unfold INT_MAX; try lia.
    rewrite length_replicate, Z2Nat.id; lia.
  - apply well_formed_int_matrix; unfold INT_MAX; try lia.
    rewrite length_replicate, Z2Nat.id; lia.
  - rewrite (Multiply_result_too_large 0 tall wide);
      [discriminate | reflexivity | reflexivity | reflexivity |].
    unfold INT_MAX, tall, wide, int_matrix. cbn [_rows _cols]. lia.
Qed.

(** ** The theorems at concrete inputs *)

Lemma Multiply_runs_loops_then_returns_null_witness :
  well_formed matA /\ well_formed matB /\ _cols matA = _rows matB /\
  _rows matA * _cols matB <= INT_MAX /\
  RowMatrix_new 0 (_rows matA) (_cols matB) = Ok (fresh 0 2 2) /\
  Multiply 0 (Some matA) (Some matB)
    = (_ <- Multiply_loops matA matB (fresh 0 2 2) 2 2 2 ;; Ok None) /\
  Multiply 0 (Some matA) (Some matB) = Ok None /\
  (exists r,
     Multiply_loops matA matB (fresh 0 2 2) 2 2 2 = Ok r /\
     forall i j, 0 <= i < 2 -> 0 <= j < 2 ->
       GetElement r i j = Ok (product_entry matA matB i j)) /\
  _cols mat23 <> _rows matA /\
  Multiply 0 (Some mat23) (Some matA) = Ok None.
Proof.
  destruct (Multiply_runs_loops_then_returns_null 0)
    as (_ & _ & Hmismatch & Htie & Hcompatible).
  split; [exact well_formed_matA|]. split; [exact well_formed_matB|].
  split; [reflexivity|]. split; [vm_compute; discriminate|].
  split; [reflexivity|].
  split; [exact (Htie matA matB (fresh 0 2 2) eq_refl eq_refl)|].
  split; [|split; [|split; [cbn; lia | apply Hmismatch; cbn; lia]]].
  - apply (Hcompatible matA matB well_formed_matA well_formed_matB eq_refl).
    vm_compute; discriminate.
  - apply (Hcompatible matA matB well_formed_matA well_formed_matB eq_refl).
    vm_compute; discriminate.
Defined.

Lemma SetElement_then_GetElement_witness :
  well_formed mat23 /\ 0 <= 1 < _rows mat23 /\ 0 <= 2 < _cols mat23 /\
  exists m', SetElement mat23 1 2 9 = (Ok tt, m') /\ GetElement m' 1 2 = Ok 9.
Proof.
  split; [exact well_formed_mat23|]. split; [cbn; lia|]. split; [cbn; lia|].
  apply (SetElement_then_GetElement mat23 1 2 9 well_formed_mat23); cbn; lia.
Defined.

Lemma out_of_range_access_rejected_witness :
  (2 < 0 \/ _rows mat23 <= 2 \/ 0 < 0 \/ _cols mat23 <= 0) /\
  GetElement mat23 2 0 = Throw (mkException OUT_OF_RANGE "GetElement out of range") /\
  SetElement mat23 2 0 9
    = (Throw (mkException OUT_OF_RANGE "SetElement out of range"), mat23).
Proof.
  split; [cbn; lia|].
  apply (out_of_range_access_rejected mat23 2 0 9). cbn; lia.
Defined.

Lemma FillFrom_spec_witness :
  well_formed mat23 /\
  Z.of_nat (length [7; 8; 9; 10; 11; 12]) = _rows mat23 * _cols mat23 /\
  Z.of_nat (length [7; 8; 9]) <> _rows mat23 * _cols mat23 /\
  (exists m', FillFrom mat23 [7; 8; 9; 10; 11; 12] = (Ok tt, m') /\
              _linear m' = [7; 8; 9; 10; 11; 12]) /\
  FillFrom mat23 [7; 8; 9]
    = (Throw (mkException OUT_OF_RANGE "FillFrom out of range"), mat23).
Proof.
  split; [exact well_formed_mat23|]. split; [reflexivity|].
  split; [cbn; lia|]. split.
  - destruct (proj1 (FillFrom_spec mat23 [7; 8; 9; 10; 11; 12] well_formed_mat23))
      as (m' & Hfill & _ & _ & Hlin & _); [reflexivity|].
    exists m'. split; assumption.
  - apply (proj2 (FillFrom_spec mat23 [7; 8; 9] well_formed_mat23)). cbn; lia.
Defined.

Lemma Add_spec_witness :
  well_formed matA /\ well_formed matC /\
  _rows matA = _rows matC /\ _cols matA = _cols matC /\
  (forall x y : Z, add x y = add y x) /\
  (exists r r',
     Add 0 (Some matA) (Some matC) = Ok (Some r) /\
     Add 0 (Some matC) (Some matA) = Ok (Some r') /\
     forall i j, GetElement r' i j = GetElement r i j) /\
  well_formed mat23 /\ well_formed mat32 /\
  (_rows mat23 <> _rows mat32 \/ _cols mat23 <> _cols mat32) /\
  Add 0 (Some mat23) (Some mat32) = Ok None.
Proof.
  split; [exact well_formed_matA|]. split; [exact well_formed_matC|].
  split; [reflexivity|]. split; [reflexivity|].
  split; [intros x y; cbn; lia|]. split.
  - destruct (proj1 (Add_spec 0 matA matC well_formed_matA well_formed_matC)
                eq_refl eq_refl) as (r & Hadd & _ & _ & _ & Hcomm).
    destruct Hcomm as (r' & Hadd' & _ & _ & Hsame); [intros x y; cbn; lia|].
    exists r, r'. split; [exact Hadd|]. split; [exact Hadd'|exact Hsame].
  - split; [exact well_formed_mat23|]. split; [exact well_formed_mat32|].
    split; [left; cbn; lia|].
    apply (proj1 (proj2 (Add_spec 0 mat23 mat32 well_formed_mat23 well_formed_mat32))).
    left; cbn; lia.
Defined.

Lemma Add_Multiply_never_throw_witness :
  well_formed mat23 /\ well_formed mat32 /\ _cols mat23 = _rows mat32 /\
  well_formed matC /\ _rows matC = _rows mat23 /\ _cols matC = _cols mat32 /\
  (exists p, Add 0 (Some mat23) (Some mat32) = Ok p) /\
  (exists r, Multiply_loops mat23 mat32 matC 2 3 2 = Ok r) /\
  (forall e, Multiply 0 (Some mat23) (Some mat32) <> Throw e).
Proof.
  split; [exact well_formed_mat23|]. split; [exact well_formed_mat32|].
  split; [reflexivity|]. split; [exact well_formed_matC|].
  split; [reflexivity|]. split; [reflexivity|].
  destruct (Add_Multiply_never_throw 0 mat23 mat32 well_formed_mat23 well_formed_mat32)
    as (Hadd & Hloops & Hmul).
  split; [exact Hadd|]. split; [|exact Hmul].
  exact (Hloops eq_refl matC well_formed_matC eq_refl eq_refl).
Defined.

Lemma SetElement_frame_witness :
  well_formed mat23 /\ 0 <= 1 < _rows mat23 /\ 0 <= 2 < _cols mat23 /\
  exists m',
    SetElement mat23 1 2 9 = (Ok tt, m') /\
    GetRowCount m' = GetRowCount mat23 /\
    GetColumnCount m' = GetColumnCount mat23 /\
    forall i' j', (i', j') <> (1, 2) -> GetElement m' i' j' = GetElement mat23 i' j'.
Proof.
  split; [exact well_formed_mat23|]. split; [cbn; lia|]. split; [cbn; lia|].
  apply (SetElement_frame mat23 1 2 9 well_formed_mat23); cbn; lia.
Defined.

(** ** The further theorems at concrete inputs *)

Lemma RowMatrix_new_spec_witness :
  0 < 2 /\ 0 < 3 /\ 2 * 3 <= INT_MAX /\
  exists m : RowMatrix Z,
    RowMatrix_new 0 2 3 = Ok m /\
    GetRowCount m = 2 /\ GetColumnCount m = 3 /\
    Z.of_nat (length (_linear m)) = 2 * 3 /\
    (forall i, 0 <= i < 2 -> _data m !! Z.to_nat i = Some (i * 3)) /\
    well_formed m.
Proof.
  split; [lia|]. split; [lia|]. split; [unfold INT_MAX; lia|].
  apply (RowMatrix_new_spec 0 2 3); unfold INT_MAX; lia.
Defined.

Lemma row_major_layout_witness :
  well_formed mat23 /\ 0 <= 1 < _rows mat23 /\ 0 <= 2 < _cols mat23 /\
  _data mat23 !! Z.to_nat 1 = Some (1 * _cols mat23) /\
  (exists x,
     _linear mat23 !! Z.to_nat (1 * _cols mat23 + 2) = Some x /\
     GetElement mat23 1 2 = Ok x) /\
  SetElement mat23 1 2 9 =
    (Ok tt, with_buffer mat23 (<[Z.to_nat (1 * _cols mat23 + 2) := 9]> (_linear mat23))).
Proof.
  split; [exact well_formed_mat23|]. split; [cbn; lia|]. split; [cbn; lia|].
  apply (row_major_layout mat23 1 2 9 well_formed_mat23); cbn; lia.
Defined.

Lemma member_functions_keep_invariant_witness :
  well_formed mat23 /\
  well_formed (snd (SetElement mat23 5 0 9)) /\
  well_formed (snd (FillFrom mat23 [7; 8; 9; 10; 11; 12])).
Proof.
  split; [exact well_formed_mat23|].
  apply (member_functions_keep_invariant mat23 5 0 9 [7; 8; 9; 10; 11; 12]
           well_formed_mat23).
Defined.

Lemma member_functions_defined_witness :
  well_formed mat23 /\
  returns_or_throws (GetElement mat23 (-1) 7) /\
  returns_or_throws (fst (SetElement mat23 (-1) 7 9)) /\
  returns_or_throws (fst (FillFrom mat23 [7; 8; 9])).
Proof.
  split; [exact well_formed_mat23|].
  apply (member_functions_defined mat23 (-1) 7 9 [7; 8; 9] well_formed_mat23).
Defined.

Lemma SetElement_last_write_wins_witness :
  well_formed mat23 /\ 0 <= 1 < _rows mat23 /\ 0 <= 2 < _cols mat23 /\
  exists m1 m2,
    SetElement mat23 1 2 8 = (Ok tt, m1) /\
    SetElement m1 1 2 9 = (Ok tt, m2) /\
    SetElement mat23 1 2 9 = (Ok tt, m2).
Proof.
  split; [exact well_formed_mat23|]. split; [cbn; lia|]. split; [cbn; lia|].
  apply (SetElement_last_write_wins mat23 1 2 8 9 well_formed_mat23); cbn; lia.
Defined.

Lemma SetElement_commute_witness :
  well_formed mat23 /\
  0 <= 1 < _rows mat23 /\ 0 <= 2 < _cols mat23 /\
  0 <= 0 < _rows mat23 /\ 0 <= 2 < _cols mat23 /\
  (0, 2) <> (1, 2) /\
  exists m1 m2 m12,
    SetElement mat23 1 2 8 = (Ok tt, m1) /\ SetElement m1 0 2 9 = (Ok tt, m12) /\
    SetElement mat23 0 2 9 = (Ok tt, m2) /\ SetElement m2 1 2 8 = (Ok tt, m12).
Proof.
  split; [exact well_formed_mat23|].
  split; [cbn; lia|]. split; [cbn; lia|]. split; [cbn; lia|]. split; [cbn; lia|].
  split; [discriminate|].
  apply (SetElement_commute mat23 1 2 0 2 8 9 well_formed_mat23);
    try (cbn; lia). discriminate.
Defined.

Lemma SetElement_of_GetElement_witness :
  well_formed mat23 /\ GetElement mat23 1 2 = Ok 6 /\
  SetElement mat23 1 2 6 = (Ok tt, mat23).
Proof.
  split; [exact well_formed_mat23|]. split; [reflexivity|].
  apply (SetElement_of_GetElement mat23 1 2 6 well_formed_mat23). reflexivity.
Defined.

Lemma FillFrom_overwrites_witness :
  well_formed mat23 /\
  Z.of_nat (length [0; 0; 0; 0; 0; 0]) = _rows mat23 * _cols mat23 /\
  Z.of_nat (length [7; 8; 9; 10; 11; 12]) = _rows mat23 * _cols mat23 /\
  FillFrom mat23 [7; 8; 9; 10; 11; 12]
    = (Ok tt, with_buffer mat23 [7; 8; 9; 10; 11; 12]) /\
  FillFrom (snd (FillFrom mat23 [0; 0; 0; 0; 0; 0])) [7; 8; 9; 10; 11; 12]
    = FillFrom mat23 [7; 8; 9; 10; 11; 12] /\
  FillFrom (snd (SetElement mat23 1 2 9)) [7; 8; 9; 10; 11; 12]
    = FillFrom mat23 [7; 8; 9; 10; 11; 12] /\
  FillFrom mat23 (_linear mat23) = (Ok tt, mat23).
Proof.
  split; [exact well_formed_mat23|]. split; [reflexivity|]. split; [reflexivity|].
  apply (FillFrom_overwrites mat23 [0; 0; 0; 0; 0; 0] [7; 8; 9; 10; 11; 12] 1 2 9
           well_formed_mat23); reflexivity.
Defined.

Lemma Add_result_is_determined_witness :
  well_formed matA /\ well_formed matC /\
  _rows matA = _rows matC /\ _cols matA = _cols matC /\
  exists r,
    Add 0 (Some matA) (Some matC) = Ok (Some r) /\
    Add 7 (Some matA) (Some matC) = Ok (Some r) /\
    _linear r = zip_with add (_linear matA) (_linear matC) /\
    same_frame r matA /\ well_formed r.
Proof.
  split; [exact well_formed_matA|]. split; [exact well_formed_matC|].
  split; [reflexivity|]. split; [reflexivity|].
  apply (Add_result_is_determined 0 7 matA matC well_formed_matA well_formed_matC);
    reflexivity.
Defined.

Lemma Add_assoc_witness :
  (forall x y z : Z, add (add x y) z = add x (add y z)) /\
  well_formed matA /\ well_formed matB /\ well_formed matC /\
  _rows matA = _rows matB /\ _cols matA = _cols matB /\
  _rows matB = _rows matC /\ _cols matB = _cols matC /\
  exists ab bc r,
    Add 0 (Some matA) (Some matB) = Ok (Some ab) /\
    Add 0 (Some matB) (Some matC) = Ok (Some bc) /\
    Add 0 (Some ab) (Some matC) = Ok (Some r) /\
    Add 0 (Some matA) (Some bc) = Ok (Some r).
Proof.
  split; [intros x y z; cbn; lia|].
  split; [exact well_formed_matA|]. split; [exact well_formed_matB|].
  split; [exact well_formed_matC|].
  split; [reflexivity|]. split; [reflexivity|].
  split; [reflexivity|]. split; [reflexivity|].
  apply (Add_assoc 0 matA matB matC); try reflexivity;
    [intros x y z; cbn; lia | exact well_formed_matA
     | exact well_formed_matB | exact well_formed_matC].
Defined.

Lemma Add_of_Multiply_result_witness :
  Multiply 0 (Some matA) (Some matB) = Ok None /\
  (None : option (RowMatrix Z)) = None /\
  Add 0 None (Some matC) = Ok None.
Proof.
  split; [reflexivity|].
  apply (Add_of_Multiply_result 0 (Some matA) (Some matB) (Some matC) None).
  reflexivity.
Defined.
